(** * Lone U-Boat: the hex-grid movement of the submarine

    A shallow embedding of the part of [main.py] that carries logic: the
    terrain map, the game-state bag, and the two methods of [Uboat] that
    mutate the submarine ([turn] and [move_forward]), together with the
    event loop of [main] and, without their pixel geometry, the cells drawn
    by [create_hex_grid_surface] and the boxes drawn by [draw_track].

    Python integers are unbounded, so they are [Z]; [//] is floor division
    ([Z.div]), [%] with a positive modulus is [Z.modulo] and [&] is
    [Z.land].  Indexing a list raises [IndexError] out of range and wraps a
    negative index once, which [Py.getitem] spells out.  The methods mutate
    [self] and read the module-level globals, so they are written in a small
    state-and-exception monad over the program's mutable store. *)

From Stdlib Require Import ZArith List Lia Bool String.
Import ListNotations.
Local Open Scope Z_scope.

(** ** Python list primitives *)

Module Py.

Definition len {A : Type} (l : list A) : Z := Z.of_nat (List.length l).

(** [l[i]]: a non-negative index counts from the front, a negative one
    from the back, and anything else is an [IndexError] ([None]). *)
Definition getitem {A : Type} (l : list A) (i : Z) : option A :=
  if 0 <=? i then nth_error l (Z.to_nat i)
  else if 0 <=? len l + i then nth_error l (Z.to_nat (len l + i))
  else None.

End Py.

(** ** Module-level constants *)

Definition DEEP_WATER : Z := 1.
Definition SHALLOW_WATER : Z := 2.
Definition LAND : Z := 3.
Definition OUT_OF_BOUNDS : Z := 0.

Definition game_map : list (list Z) :=
  [ [0; 0; 1; 1; 1; 1; 1; 1; 1; 1; 1; 1; 1; 0; 0];
    [0; 1; 1; 1; 1; 1; 1; 1; 1; 1; 1; 1; 1; 1; 0];
    [1; 1; 1; 2; 2; 1; 1; 1; 1; 1; 1; 1; 1; 1; 1];
    [1; 1; 2; 2; 3; 2; 1; 1; 1; 1; 1; 1; 1; 1; 1];
    [1; 1; 2; 3; 3; 2; 2; 1; 1; 1; 1; 1; 1; 1; 1];
    [1; 1; 1; 2; 2; 2; 2; 2; 1; 1; 1; 1; 1; 1; 1];
    [1; 1; 1; 1; 1; 2; 3; 2; 1; 1; 1; 1; 1; 1; 1];
    [1; 1; 1; 1; 2; 2; 2; 2; 2; 1; 1; 1; 1; 1; 1];
    [1; 1; 1; 1; 2; 3; 2; 1; 1; 1; 1; 1; 1; 1; 1];
    [1; 1; 1; 1; 2; 2; 2; 1; 1; 1; 1; 1; 1; 1; 1];
    [1; 1; 1; 1; 1; 1; 1; 1; 1; 1; 1; 1; 1; 1; 1];
    [0; 1; 1; 1; 1; 1; 1; 1; 1; 1; 1; 1; 1; 1; 0];
    [0; 0; 1; 1; 1; 1; 1; 1; 1; 1; 1; 1; 1; 0; 0] ].

(** The game-state dictionary.  Its inner dictionaries keep insertion
    order (the panels draw them in that order), hence association lists. *)
Record GameState : Type := mkGameState {
  uboat_pos : Z * Z;
  uboat_orientation : Z;
  detection_level : Z;
  hull_damage : Z;
  torpedo_tubes : list (string * string);
  crew_status : list (string * string);
  system_damage : list (string * string)
}.

Definition game_state : GameState := {|
  uboat_pos := (7, 7);
  uboat_orientation := 0;
  detection_level := 1;
  hull_damage := 2;
  torpedo_tubes :=
    [("1", "loaded"); ("2", "loaded"); ("3", "empty"); ("4", "damaged");
     ("5", "loaded")]%string;
  crew_status :=
    [("Captain", "OK"); ("Sonar Operator", "OK"); ("Engineer", "KIA");
     ("Weapons Officer", "OK"); ("Lookout", "OK"); ("Med Officer", "OK")]%string;
  system_damage :=
    [("Engine", "damaged"); ("Flak Gun", "OK"); ("Deck Gun", "OK")]%string
|}.

(** ** The store *)

(** The logical fields of a [Uboat].  Its [image] and [rect] are recomputed
    by [update_position_and_orientation] from these three fields and from
    the never-reassigned [original_image] and [hex_size]; they hold no
    state of their own and are left out. *)
Record Uboat : Type := mkUboat {
  row : Z;
  col : Z;
  orientation : Z
}.

(** Everything the methods can reach: the sprite and the two mutable
    module globals. *)
Record World : Type := mkWorld {
  the_uboat : Uboat;
  the_map : list (list Z);
  the_state : GameState
}.

(** ** State-and-exception monad *)

Inductive exn : Type := IndexError.

Inductive result (A : Type) : Type :=
| Ok (a : A)
| Raise (e : exn).
Arguments Ok {A} a.
Arguments Raise {A} e.

Definition M (A : Type) : Type := World -> result A * World.

Definition ret {A : Type} (a : A) : M A := fun w => (Ok a, w).

Definition bind {A B : Type} (m : M A) (k : A -> M B) : M B :=
  fun w =>
    match m w with
    | (Ok a, w') => k a w'
    | (Raise e, w') => (Raise e, w')
    end.

Declare Scope py_scope.
Delimit Scope py_scope with py.
Notation "x <- m ;; k" := (bind m (fun x => k))
  (at level 61, m at next level, right associativity) : py_scope.
Notation "m ;; k" := (bind m (fun _ => k))
  (at level 61, right associativity) : py_scope.
Local Open Scope py_scope.

Definition self : M Uboat := fun w => (Ok (the_uboat w), w).

Definition global_game_map : M (list (list Z)) := fun w => (Ok (the_map w), w).

Definition set_row (v : Z) : M unit :=
  fun w =>
    let u := the_uboat w in
    (Ok tt, mkWorld (mkUboat v (col u) (orientation u)) (the_map w) (the_state w)).

Definition set_col (v : Z) : M unit :=
  fun w =>
    let u := the_uboat w in
    (Ok tt, mkWorld (mkUboat (row u) v (orientation u)) (the_map w) (the_state w)).

Definition set_orientation (v : Z) : M unit :=
  fun w =>
    let u := the_uboat w in
    (Ok tt, mkWorld (mkUboat (row u) (col u) v) (the_map w) (the_state w)).

(** [l[i]] as a statement: the value, or [IndexError] with the store as it
    was. *)
Definition index {A : Type} (l : list A) (i : Z) : M A :=
  fun w =>
    match Py.getitem l i with
    | Some a => (Ok a, w)
    | None => (Raise IndexError, w)
    end.

(** ** class Uboat *)

(** The rotation handed to [pygame.transform.rotate]. *)
Definition sprite_angle (u : Uboat) : Z := -60 * orientation u.

(** It only refreshes [image] and [rect]; no logical field is written. *)
Definition update_position_and_orientation : M unit := ret tt.

Definition turn (direction : Z) : M unit :=
  u <- self ;;
  set_orientation ((orientation u + direction + 6) mod 6) ;;
  update_position_and_orientation.

Definition cube : Type := Z * Z * Z.

Definition cube_directions : list cube :=
  [ (1, -1, 0);   (* NE *)
    (1, 0, -1);   (* E  *)
    (0, 1, -1);   (* SE *)
    (-1, 1, 0);   (* SW *)
    (-1, 0, 1);   (* W  *)
    (0, -1, 1) ]. (* NW *)

Definition orientation_to_cube_map : list Z := [1; 2; 3; 4; 5; 0].

(** The first half of [move_forward]: from [self] to the candidate
    coordinate.  It returns the locals [(q, r, s)], [(new_q, new_r, new_s)]
    and [(new_row, new_col)]. *)
Definition move_forward_target : M (cube * cube * (Z * Z)) :=
  u <- self ;;
  let q := col u - (row u - Z.land (row u) 1) / 2 in
  let r := row u in
  let s := - q - r in
  k <- index orientation_to_cube_map (orientation u) ;;
  d <- index cube_directions k ;;
  let '(dq, dr, ds) := d in
  let '(new_q, new_r, new_s) := (q + dq, r + dr, s + ds) in
  let new_row := new_r in
  let new_col := new_q + (new_r - Z.land new_r 1) / 2 in
  ret ((q, r, s), (new_q, new_r, new_s), (new_row, new_col)).

(** The whole method: the candidate is committed behind the bounds test and
    the terrain test; [and] evaluates its right operand only when the left
    one holds. *)
Definition move_forward : M unit :=
  t <- move_forward_target ;;
  let '(_, _, (new_row, new_col)) := t in
  gm <- global_game_map ;;
  if (0 <=? new_row) && (new_row <? Py.len gm) then
    row0 <- index gm 0 ;;
    if (0 <=? new_col) && (new_col <? Py.len row0) then
      row_data <- index gm new_row ;;
      terrain <- index row_data new_col ;;
      if (terrain =? DEEP_WATER) || (terrain =? SHALLOW_WATER) then
        set_row new_row ;;
        set_col new_col ;;
        update_position_and_orientation
      else ret tt
    else ret tt
  else ret tt.

(** ** main *)

(** [Uboat(game_state["uboat_pos"], game_state["uboat_orientation"], HEX_SIZE)] *)
Definition Uboat_init (initial_pos : Z * Z) (initial_orientation : Z) : Uboat :=
  mkUboat (fst initial_pos) (snd initial_pos) initial_orientation.

Definition initial_world : World :=
  mkWorld (Uboat_init (uboat_pos game_state) (uboat_orientation game_state))
          game_map game_state.

Inductive key : Type := K_d | K_a | K_w | K_other.

(** The [KEYDOWN] branch of the event loop. *)
Definition keydown (k : key) : M unit :=
  (if match k with K_d => true | _ => false end then turn 1 else ret tt) ;;
  (if match k with K_a => true | _ => false end then turn (-1) else ret tt) ;;
  (if match k with K_w => true | _ => false end then move_forward else ret tt).

(** The operations that mutate the submarine, and a run of them. *)
Inductive action : Type :=
| Turn (direction : Z)
| MoveForward.

Definition perform (a : action) : M unit :=
  match a with
  | Turn direction => turn direction
  | MoveForward => move_forward
  end.

Fixpoint perform_all (l : list action) : M unit :=
  match l with
  | [] => ret tt
  | a :: l' => perform a ;; perform_all l'
  end.

(** ** Hex arithmetic in the vocabulary of the specification *)

Module Spec.

(** Lines 123-125 of [move_forward] as a function of the coordinate:
    odd-row offset to cube. *)
Definition offset_to_cube (rc : Z * Z) : cube :=
  let '(row, col) := rc in
  let q := col - (row - Z.land row 1) / 2 in
  let r := row in
  let s := - q - r in
  (q, r, s).

(** Lines 134-135: cube back to odd-row offset. *)
Definition cube_to_offset (c : cube) : Z * Z :=
  let '(q, r, _) := c in
  (r, q + (r - Z.land r 1) / 2).

Definition cube_sum (c : cube) : Z :=
  let '(q, r, s) := c in q + r + s.

Definition cube_add (a b : cube) : cube :=
  let '(q, r, s) := a in
  let '(dq, dr, ds) := b in
  (q + dq, r + dr, s + ds).

(** The facing of each orientation, as the comment in the source reads:
    0:E, 1:SE, 2:SW, 3:W, 4:NW, 5:NE. *)
Definition direction_vector (o : Z) : cube :=
  match o with
  | 0 => (1, 0, -1)
  | 1 => (0, 1, -1)
  | 2 => (-1, 1, 0)
  | 3 => (-1, 0, 1)
  | 4 => (0, -1, 1)
  | _ => (1, -1, 0)
  end.

(** A unit step: the three components sum to zero and the largest one in
    absolute value is one. *)
Definition unit_vector (c : cube) : Prop :=
  let '(q, r, s) := c in
  q + r + s = 0 /\ Z.max (Z.abs q) (Z.max (Z.abs r) (Z.abs s)) = 1.

(** Convert, add the facing's vector, convert back. *)
Definition neighbor (rc : Z * Z) (o : Z) : Z * Z :=
  cube_to_offset (cube_add (offset_to_cube rc) (direction_vector o)).

Definition reverse (o : Z) : Z := (o + 3) mod 6.

(** Within the grid: the row count is the length of the map, the column
    count the length of its first row. *)
Definition in_bounds (gm : list (list Z)) (r c : Z) : bool :=
  (0 <=? r) && (r <? Py.len gm) && (0 <=? c) && (c <? Py.len (hd [] gm)).

Definition terrain_at (gm : list (list Z)) (r c : Z) : option Z :=
  if (0 <=? r) && (0 <=? c) then
    match nth_error gm (Z.to_nat r) with
    | Some row_data => nth_error row_data (Z.to_nat c)
    | None => None
    end
  else None.

Definition water (t : Z) : bool :=
  (t =? DEEP_WATER) || (t =? SHALLOW_WATER).

(** A tile the submarine may stand on. *)
Definition enterable (gm : list (list Z)) (r c : Z) : bool :=
  in_bounds gm r c &&
  match terrain_at gm r c with
  | Some t => water t
  | None => false
  end.

End Spec.

(** The store after the submarine has been placed at [(r, c)]. *)
Definition moved_to (w : World) (r c : Z) : World :=
  mkWorld (mkUboat r c (orientation (the_uboat w))) (the_map w) (the_state w).

(** What a run of operations must preserve. *)
Definition safe (w : World) : Prop :=
  the_map w = game_map /\
  Spec.enterable game_map (row (the_uboat w)) (col (the_uboat w)) = true /\
  0 <= orientation (the_uboat w) <= 5.

(** ** The event loop of [main] *)

Inductive event : Type :=
| QUIT
| KEYDOWN (k : key)
| OTHER_EVENT.

(** The body of [for event in pygame.event.get()], with the local
    [running] passed through. *)
Definition handle_event (running : bool) (e : event) : M bool :=
  let running := match e with QUIT => false | _ => running end in
  (match e with KEYDOWN k => keydown k | _ => ret tt end) ;;
  ret running.

Fixpoint for_events (evs : list event) (running : bool) : M bool :=
  match evs with
  | [] => ret running
  | e :: evs' => r <- handle_event running e ;; for_events evs' r
  end.

(** [while running]: one list of polled events per frame.  The drawing
    that ends each frame only reads the store.  The loop is entered with
    [running] true and runs until a frame clears it or the polled input
    ends. *)
Fixpoint main_loop (frames : list (list event)) : M unit :=
  match frames with
  | [] => ret tt
  | evs :: frames' =>
      running <- for_events evs true ;;
      if running then main_loop frames' else ret tt
  end.

(** The key presses of a frame, as operations on the submarine. *)
Definition action_of_key (k : key) : list action :=
  match k with
  | K_d => [Turn 1]
  | K_a => [Turn (-1)]
  | K_w => [MoveForward]
  | K_other => []
  end.

Definition actions_of (evs : list event) : list action :=
  flat_map (fun e => match e with KEYDOWN k => action_of_key k | _ => [] end) evs.

Definition is_quit (e : event) : bool :=
  match e with QUIT => true | _ => false end.

(** ** Drawing: what is drawn, without the pixel geometry *)

Definition color : Type := Z * Z * Z.

Definition DEEP_WATER_BLUE : color := (25, 25, 112).
Definition SHALLOW_WATER_TEAL : color := (64, 224, 208).
Definition LAND_GREEN : color := (34, 139, 34).
Definition OUT_OF_BOUNDS_WHITE : color := (255, 255, 255).

Definition terrain_colors : list (Z * color) :=
  [ (DEEP_WATER, DEEP_WATER_BLUE);
    (SHALLOW_WATER, SHALLOW_WATER_TEAL);
    (LAND, LAND_GREEN);
    (OUT_OF_BOUNDS, OUT_OF_BOUNDS_WHITE) ].

(** [d.get(k, default)] *)
Definition dict_get {V : Type} (d : list (Z * V)) (k : Z) (default : V) : V :=
  match find (fun kv => fst kv =? k) d with
  | Some kv => snd kv
  | None => default
  end.

(** [enumerate(l)], counting from [n]. *)
Fixpoint enumerate_from {A : Type} (n : Z) (l : list A) : list (Z * A) :=
  match l with
  | [] => []
  | x :: l' => (n, x) :: enumerate_from (n + 1) l'
  end.

Definition enumerate {A : Type} (l : list A) : list (Z * A) := enumerate_from 0 l.

(** The double loop of [create_hex_grid_surface]: the cells in the order
    they are visited, each with the fill colour handed to [draw_hex].  The
    pixel centre of the hexagon is floating point and is not kept. *)
Definition hex_grid_cells (map_data : list (list Z)) : list (Z * Z * color) :=
  flat_map
    (fun rr : Z * list Z =>
       map (fun ct : Z * Z =>
              (fst rr, fst ct, dict_get terrain_colors (snd ct) OUT_OF_BOUNDS_WHITE))
           (enumerate (snd rr)))
    (enumerate map_data).


(** ** Maps other than the fixed one *)

(** No row is shorter than the first one, whose length the bounds test of
    [move_forward] uses for every row. *)
Definition rows_cover_first (gm : list (list Z)) : Prop :=
  Forall (fun row_data => Py.len (hd [] gm) <= Py.len row_data) gm.

Definition with_orientation (w : World) (o : Z) : World :=
  mkWorld (mkUboat (row (the_uboat w)) (col (the_uboat w)) o)
          (the_map w) (the_state w).

(** A computation that may write the row and the column of the submarine
    and nothing else. *)
Definition writes_position_only {A : Type} (m : M A) : Prop :=
  forall w : World,
    orientation (the_uboat (snd (m w))) = orientation (the_uboat w) /\
    the_map (snd (m w)) = the_map w /\
    the_state (snd (m w)) = the_state w.

(** * Properties *)

(** ** Running the monad *)

Lemma bind_ok {A B : Type} (m : M A) (k : A -> M B) (w w' : World) (a : A) :
  m w = (Ok a, w') -> bind m k w = k a w'.
Proof. intros H. unfold bind. now rewrite H. Qed.

Lemma bind_raise {A B : Type} (m : M A) (k : A -> M B) (w w' : World) (e : exn) :
  m w = (Raise e, w') -> bind m k w = (Raise e, w').
Proof. intros H. unfold bind. now rewrite H. Qed.

Lemma index_some {A : Type} (l : list A) (i : Z) (a : A) (w : World) :
  Py.getitem l i = Some a -> index l i w = (Ok a, w).
Proof. intros H. unfold index. now rewrite H. Qed.

Lemma getitem_nonneg {A : Type} (l : list A) (i : Z) :
  0 <= i -> Py.getitem l i = nth_error l (Z.to_nat i).
Proof.
  intros Hi. unfold Py.getitem.
  destruct (0 <=? i) eqn:E; [reflexivity | apply Z.leb_gt in E; lia].
Qed.

(** ** Arithmetic of the two conversions *)

Lemma land_1_mod (x : Z) : Z.land x 1 = x mod 2.
Proof. change 1 with (Z.ones 1) at 1. now rewrite Z.land_ones by lia. Qed.

Lemma orientation_cases (o : Z) :
  0 <= o <= 5 -> o = 0 \/ o = 1 \/ o = 2 \/ o = 3 \/ o = 4 \/ o = 5.
Proof. lia. Qed.

Ltac each_orientation H :=
  apply orientation_cases in H;
  destruct H as [H | [H | [H | [H | [H | H]]]]]; rewrite H in *; clear H.

Lemma offset_cube_offset (rc : Z * Z) :
  Spec.cube_to_offset (Spec.offset_to_cube rc) = rc.
Proof.
  destruct rc as [r c]. unfold Spec.cube_to_offset, Spec.offset_to_cube.
  f_equal. lia.
Qed.

Lemma cube_offset_cube (q r : Z) :
  Spec.offset_to_cube (Spec.cube_to_offset (q, r, - q - r)) = (q, r, - q - r).
Proof.
  unfold Spec.cube_to_offset, Spec.offset_to_cube.
  repeat f_equal; lia.
Qed.

Lemma offset_to_cube_sum (rc : Z * Z) :
  Spec.cube_sum (Spec.offset_to_cube rc) = 0.
Proof. destruct rc as [r c]. unfold Spec.cube_sum, Spec.offset_to_cube. lia. Qed.

Lemma direction_vector_unit (o : Z) : Spec.unit_vector (Spec.direction_vector o).
Proof.
  unfold Spec.direction_vector.
  destruct o as [ | [ [ | | ] | [ [ | | ] | [ | | ] | ] | ] | ]; cbn; lia.
Qed.

Lemma neighbor_reverse (rc : Z * Z) (o : Z) :
  0 <= o <= 5 -> Spec.neighbor (Spec.neighbor rc o) (Spec.reverse o) = rc.
Proof.
  intros Ho. destruct rc as [r c].
  each_orientation Ho;
    unfold Spec.neighbor, Spec.cube_to_offset, Spec.cube_add, Spec.offset_to_cube;
    change (Spec.reverse 0) with 3; change (Spec.reverse 1) with 4;
    change (Spec.reverse 2) with 5; change (Spec.reverse 3) with 0;
    change (Spec.reverse 4) with 1; change (Spec.reverse 5) with 2;
    cbv [Spec.direction_vector]; rewrite !land_1_mod.
  all: f_equal; try lia.
  all: Z.div_mod_to_equations; lia.
Qed.

(** ** The candidate coordinate *)

Lemma move_forward_target_eq (w : World) :
  0 <= orientation (the_uboat w) <= 5 ->
  let u := the_uboat w in
  let c0 := Spec.offset_to_cube (row u, col u) in
  let c1 := Spec.cube_add c0 (Spec.direction_vector (orientation u)) in
  move_forward_target w = (Ok (c0, c1, Spec.cube_to_offset c1), w).
Proof.
  intros Ho. destruct w as [[r c o] gm st]. cbn [the_uboat orientation row col] in *.
  each_orientation Ho; reflexivity.
Qed.

(** ** Reading the fixed map *)

Lemma game_map_rows (row_data : list Z) :
  In row_data game_map -> Py.len row_data = 15.
Proof.
  intros H. assert (F : Forall (fun l => Py.len l = 15) game_map).
  { unfold game_map. repeat constructor. }
  rewrite Forall_forall in F. now apply F.
Qed.

Lemma game_map_lookup (r c : Z) :
  Spec.in_bounds game_map r c = true ->
  exists row_data t,
    Py.getitem game_map r = Some row_data /\
    Py.getitem row_data c = Some t /\
    Spec.terrain_at game_map r c = Some t.
Proof.
  unfold Spec.in_bounds. intros H.
  apply andb_prop in H; destruct H as [H Hc2].
  apply andb_prop in H; destruct H as [H Hc1].
  apply andb_prop in H; destruct H as [Hr1 Hr2].
  apply Z.leb_le in Hr1, Hc1. apply Z.ltb_lt in Hr2, Hc2.
  change (Py.len game_map) with 13 in Hr2.
  change (Py.len (hd [] game_map)) with 15 in Hc2.
  destruct (nth_error game_map (Z.to_nat r)) as [row_data | ] eqn:Er.
  - pose proof (game_map_rows row_data (nth_error_In _ _ Er)) as Hlen.
    destruct (nth_error row_data (Z.to_nat c)) as [t | ] eqn:Ec.
    + exists row_data, t. rewrite !getitem_nonneg by assumption.
      unfold Spec.terrain_at.
      destruct (Z.leb_spec 0 r); [ | lia]. destruct (Z.leb_spec 0 c); [ | lia].
      cbn [andb]. rewrite Er. auto.
    + apply nth_error_None in Ec. unfold Py.len in Hlen. lia.
  - apply nth_error_None in Er. change (List.length game_map) with 13%nat in Er. lia.
Qed.

(** ** What [move_forward] does on the fixed map *)

Lemma move_forward_eq (w : World) :
  the_map w = game_map ->
  0 <= orientation (the_uboat w) <= 5 ->
  let u := the_uboat w in
  let '(nr, nc) := Spec.neighbor (row u, col u) (orientation u) in
  move_forward w
  = (Ok tt, if Spec.enterable game_map nr nc then moved_to w nr nc else w).
Proof.
  intros Hm Ho u.
  destruct (Spec.neighbor (row u, col u) (orientation u)) as [nr nc] eqn:En.
  pose proof (move_forward_target_eq w Ho) as Ht. cbv zeta in Ht.
  fold u in Ht. unfold Spec.neighbor in En. rewrite En in Ht.
  unfold move_forward. rewrite (bind_ok _ _ _ _ _ Ht).
  destruct (Spec.offset_to_cube (row u, col u)) as [[q0 r0] s0].
  destruct (Spec.cube_add _ _) as [[q1 r1] s1].
  unfold global_game_map at 1. unfold bind at 1. rewrite Hm.
  unfold Spec.enterable.
  destruct (Spec.in_bounds game_map nr nc) eqn:Eb.
  - destruct (game_map_lookup nr nc Eb) as (row_data & t & Hr & Hc & Ht').
    unfold Spec.in_bounds in Eb.
    apply andb_prop in Eb; destruct Eb as [Eb Hc2].
    apply andb_prop in Eb; destruct Eb as [Eb Hc1].
    rewrite Eb. change (index game_map 0) with (@ret (list Z) (hd [] game_map)).
    unfold bind at 1, ret at 1. rewrite Hc1, Hc2. cbn [andb].
    rewrite (bind_ok _ _ _ _ _ (index_some _ _ _ _ Hr)).
    rewrite (bind_ok _ _ _ _ _ (index_some _ _ _ _ Hc)).
    rewrite Ht'. cbn [andb]. unfold Spec.water.
    destruct ((t =? DEEP_WATER) || (t =? SHALLOW_WATER)); reflexivity.
  - cbn [andb]. unfold Spec.in_bounds in Eb.
    destruct ((0 <=? nr) && (nr <? Py.len game_map)) eqn:E1; [ | reflexivity].
    change (index game_map 0) with (@ret (list Z) (hd [] game_map)).
    unfold bind at 1, ret at 1. cbn [andb] in Eb. rewrite Eb. reflexivity.
Qed.

Lemma enterable_spec (gm : list (list Z)) (r c : Z) :
  Spec.enterable gm r c = true <->
  0 <= r < Py.len gm /\ 0 <= c < Py.len (hd [] gm) /\
  exists t, Spec.terrain_at gm r c = Some t /\
            (t = DEEP_WATER \/ t = SHALLOW_WATER).
Proof.
  unfold Spec.enterable, Spec.in_bounds, Spec.water.
  rewrite !andb_true_iff, !Z.leb_le, !Z.ltb_lt. split.
  - intros [[[[H1 H2] H3] H4] H5].
    destruct (Spec.terrain_at gm r c) as [t | ]; [ | discriminate].
    apply orb_true_iff in H5. rewrite !Z.eqb_eq in H5. eauto 8.
  - intros [[H1 H2] [[H3 H4] [t [Ht Hw]]]]. rewrite Ht.
    rewrite orb_true_iff, !Z.eqb_eq. auto.
Qed.

(** ** Preservation of [safe] *)

Lemma turn_eq (direction : Z) (w : World) :
  turn direction w
  = (Ok tt,
     mkWorld (mkUboat (row (the_uboat w)) (col (the_uboat w))
                      ((orientation (the_uboat w) + direction + 6) mod 6))
             (the_map w) (the_state w)).
Proof. reflexivity. Qed.

Lemma turn_safe (direction : Z) (w : World) :
  safe w -> exists w', turn direction w = (Ok tt, w') /\ safe w'.
Proof.
  intros (Hm & He & Ho). eexists. split; [apply turn_eq | ].
  unfold safe. cbn [the_map the_uboat row col orientation].
  repeat split; try assumption;
    pose proof (Z.mod_pos_bound (orientation (the_uboat w) + direction + 6) 6);
    lia.
Qed.

Lemma move_forward_safe (w : World) :
  safe w -> exists w', move_forward w = (Ok tt, w') /\ safe w'.
Proof.
  intros (Hm & He & Ho). pose proof (move_forward_eq w Hm Ho) as H.
  cbv zeta in H.
  destruct (Spec.neighbor _ _) as [nr nc].
  eexists. split; [exact H | ].
  destruct (Spec.enterable game_map nr nc) eqn:E.
  - unfold safe, moved_to. cbn [the_map the_uboat row col orientation]. auto.
  - unfold safe. auto.
Qed.

Lemma perform_all_safe (l : list action) :
  forall w, safe w -> exists w', perform_all l w = (Ok tt, w') /\ safe w'.
Proof.
  induction l as [ | a l IH]; intros w Hw.
  - exists w. split; [reflexivity | assumption].
  - assert (Ha : exists w1, perform a w = (Ok tt, w1) /\ safe w1).
    { destruct a as [direction | ]; [now apply turn_safe | now apply move_forward_safe]. }
    destruct Ha as (w1 & Ha & Hw1).
    destruct (IH w1 Hw1) as (w' & Hl & Hw').
    exists w'. split; [ | assumption].
    cbn [perform_all]. now rewrite (bind_ok _ _ _ _ _ Ha).
Qed.

Lemma initial_world_safe : safe initial_world.
Proof. unfold safe. cbn. repeat split; try reflexivity; lia. Qed.

Lemma keydown_safe (k : key) (w : World) :
  safe w -> exists w', keydown k w = (Ok tt, w') /\ safe w'.
Proof.
  intros Hw. destruct k.
  - destruct (turn_safe 1 w Hw) as (w' & H & Hw'). exists w'. split; [ | assumption].
    unfold keydown. now rewrite (bind_ok _ _ _ _ _ H).
  - destruct (turn_safe (-1) w Hw) as (w' & H & Hw'). exists w'. split; [ | assumption].
    unfold keydown. rewrite (bind_ok _ _ w w tt eq_refl).
    now rewrite (bind_ok _ _ _ _ _ H).
  - destruct (move_forward_safe w Hw) as (w' & H & Hw'). exists w'. split; [ | assumption].
    unfold keydown. rewrite (bind_ok _ _ w w tt eq_refl).
    rewrite (bind_ok _ _ w w tt eq_refl). exact H.
  - exists w. split; [reflexivity | assumption].
Qed.

(** ** The frame of [move_forward] *)

Section Frame.

Context {A B : Type}.

Lemma ret_position_only (a : A) : writes_position_only (ret a).
Proof. intros w. cbn. auto. Qed.

Lemma index_position_only (l : list A) (i : Z) :
  writes_position_only (index l i).
Proof. intros w. unfold index. destruct (Py.getitem l i); cbn; auto. Qed.

Lemma bind_position_only (m : M A) (k : A -> M B) :
  writes_position_only m ->
  (forall a, writes_position_only (k a)) ->
  writes_position_only (bind m k).
Proof.
  intros Hm Hk w. unfold bind. specialize (Hm w).
  destruct (m w) as [[a | e] w1]; cbn [snd] in *; [ | exact Hm].
  destruct Hm as (Ho & Hg & Hs). destruct (Hk a w1) as (Ho' & Hg' & Hs').
  repeat split; congruence.
Qed.

End Frame.

Lemma self_position_only : writes_position_only self.
Proof. intros w. cbn. auto. Qed.

Lemma global_game_map_position_only : writes_position_only global_game_map.
Proof. intros w. cbn. auto. Qed.

Lemma set_row_position_only (v : Z) : writes_position_only (set_row v).
Proof. intros w. cbn. auto. Qed.

Lemma set_col_position_only (v : Z) : writes_position_only (set_col v).
Proof. intros w. cbn. auto. Qed.

Ltac frame_step :=
  first
    [ apply bind_position_only; [ | intros ? ]
    | apply ret_position_only
    | apply index_position_only
    | apply self_position_only
    | apply global_game_map_position_only
    | apply set_row_position_only
    | apply set_col_position_only
    | match goal with
      | |- writes_position_only (if ?b then _ else _) => destruct b
      | |- writes_position_only (match ?x with (_, _) => _ end) => destruct x
      end ].

Lemma move_forward_target_position_only :
  writes_position_only move_forward_target.
Proof. unfold move_forward_target. repeat frame_step. Qed.

Lemma move_forward_position_only : writes_position_only move_forward.
Proof.
  unfold move_forward, update_position_and_orientation.
  apply bind_position_only; [apply move_forward_target_position_only | ].
  intros ?. repeat frame_step.
Qed.

(** ** Concrete runs *)

Example blocked_by_land (st : GameState) :
  move_forward (mkWorld (mkUboat 3 3 0) game_map st)
  = (Ok tt, mkWorld (mkUboat 3 3 0) game_map st).
Proof. reflexivity. Qed.

Example blocked_by_edge (st : GameState) :
  move_forward (mkWorld (mkUboat 2 0 3) game_map st)
  = (Ok tt, mkWorld (mkUboat 2 0 3) game_map st).
Proof. reflexivity. Qed.

Example blocked_by_out_of_bounds_code (st : GameState) :
  move_forward (mkWorld (mkUboat 1 1 3) game_map st)
  = (Ok tt, mkWorld (mkUboat 1 1 3) game_map st).
Proof. reflexivity. Qed.

Example south_east_from_odd_row (st : GameState) :
  move_forward (mkWorld (mkUboat 7 7 1) game_map st)
  = (Ok tt, mkWorld (mkUboat 8 8 1) game_map st).
Proof. reflexivity. Qed.

Example orientation_six_raises (st : GameState) :
  move_forward (mkWorld (mkUboat 7 7 6) game_map st)
  = (Raise IndexError, mkWorld (mkUboat 7 7 6) game_map st).
Proof. reflexivity. Qed.

Example turn_counter_clockwise_from_east :
  turn (-1) initial_world = (Ok tt, mkWorld (mkUboat 7 7 5) game_map game_state).
Proof. reflexivity. Qed.

(** * The claims *)

(** C1. On the fixed map and for an orientation in 0-5, [move_forward]
    returns normally; the store afterwards holds the candidate coordinate
    exactly when that coordinate is inside the grid and its terrain is deep
    or shallow water, and is the unchanged store in every other case. *)
Theorem move_forward_commits_only_on_water (w : World) :
  the_map w = game_map ->
  0 <= orientation (the_uboat w) <= 5 ->
  exists (c0 c1 : cube) (nr nc : Z),
    move_forward_target w = (Ok (c0, c1, (nr, nc)), w) /\
    move_forward w
    = (Ok tt, if Spec.enterable game_map nr nc then moved_to w nr nc else w) /\
    (Spec.enterable game_map nr nc = true <->
     0 <= nr < Py.len game_map /\ 0 <= nc < Py.len (hd [] game_map) /\
     exists t, Spec.terrain_at game_map nr nc = Some t /\
               (t = DEEP_WATER \/ t = SHALLOW_WATER)).
Proof.
  intros Hm Ho.
  pose proof (move_forward_target_eq w Ho) as Ht.
  pose proof (move_forward_eq w Hm Ho) as Hf. cbv zeta in Ht, Hf.
  unfold Spec.neighbor in Hf.
  destruct (Spec.cube_to_offset _) as [nr nc].
  do 2 eexists. exists nr, nc.
  split; [exact Ht | ]. split; [exact Hf | apply enterable_spec].
Qed.

Lemma move_forward_commits_only_on_water_witness :
  the_map initial_world = game_map /\
  0 <= orientation (the_uboat initial_world) <= 5 /\
  exists (c0 c1 : cube) (nr nc : Z),
    move_forward_target initial_world = (Ok (c0, c1, (nr, nc)), initial_world) /\
    move_forward initial_world
    = (Ok tt, if Spec.enterable game_map nr nc
              then moved_to initial_world nr nc else initial_world) /\
    (Spec.enterable game_map nr nc = true <->
     0 <= nr < Py.len game_map /\ 0 <= nc < Py.len (hd [] game_map) /\
     exists t, Spec.terrain_at game_map nr nc = Some t /\
               (t = DEEP_WATER \/ t = SHALLOW_WATER)).
Proof.
  split; [reflexivity | ]. split; [cbn; lia | ].
  apply (move_forward_commits_only_on_water initial_world); [reflexivity | cbn; lia].
Defined.

(** C2. For an orientation in 0-5 the candidate computed by [move_forward]
    is: the offset coordinate converted to cube coordinates, plus the unit
    vector of the facing, converted back; the cube coordinates sum to zero
    before and after the addition. *)
Theorem move_forward_target_is_cube_step (w : World) :
  0 <= orientation (the_uboat w) <= 5 ->
  let u := the_uboat w in
  let c0 := Spec.offset_to_cube (row u, col u) in
  let d := Spec.direction_vector (orientation u) in
  let c1 := Spec.cube_add c0 d in
  move_forward_target w = (Ok (c0, c1, Spec.cube_to_offset c1), w) /\
  Spec.unit_vector d /\
  Spec.cube_sum c0 = 0 /\
  Spec.cube_sum c1 = 0.
Proof.
  intros Ho u c0 d c1.
  split; [exact (move_forward_target_eq w Ho) | ].
  pose proof (direction_vector_unit (orientation u)) as Hd. fold d in Hd.
  pose proof (offset_to_cube_sum (row u, col u)) as H0. fold c0 in H0.
  split; [exact Hd | ]. split; [exact H0 | ].
  subst c1. destruct c0 as [[q r] s]. destruct d as [[dq dr] ds].
  unfold Spec.cube_sum, Spec.cube_add, Spec.unit_vector in *. lia.
Qed.

Lemma move_forward_target_is_cube_step_witness :
  0 <= orientation (the_uboat initial_world) <= 5 /\
  move_forward_target initial_world
  = (Ok ((4, 7, -11), (5, 7, -12), (7, 8)), initial_world) /\
  Spec.unit_vector (1, 0, -1) /\
  Spec.cube_sum (4, 7, -11) = 0 /\
  Spec.cube_sum (5, 7, -12) = 0.
Proof.
  split; [cbn; lia | ].
  apply (move_forward_target_is_cube_step initial_world). cbn; lia.
Defined.

(** C3. From the initial store (row 7, column 7, orientation 0) every
    finite run of [turn] and [move_forward] calls returns normally and
    leaves the submarine inside the map, on deep or shallow water, with an
    orientation in 0-5. *)
Theorem submarine_stays_on_water (l : list action) :
  exists w' : World,
    perform_all l initial_world = (Ok tt, w') /\
    let u := the_uboat w' in
    0 <= row u < Py.len (the_map w') /\
    0 <= col u < Py.len (hd [] (the_map w')) /\
    (exists t, Spec.terrain_at (the_map w') (row u) (col u) = Some t /\
               (t = DEEP_WATER \/ t = SHALLOW_WATER)) /\
    0 <= orientation u <= 5.
Proof.
  destruct (perform_all_safe l initial_world initial_world_safe)
    as (w' & Hrun & Hm & He & Ho).
  exists w'. split; [exact Hrun | ].
  cbv zeta. rewrite Hm. apply enterable_spec in He.
  destruct He as (Hr & Hc & Ht). auto.
Qed.

(** C4. For an orientation in 0-5 and a delta of +1 or -1, [turn] returns
    normally and sets the orientation to (orientation + delta + 6) mod 6. *)
Theorem turn_sets_orientation (w : World) (delta : Z) :
  0 <= orientation (the_uboat w) <= 5 ->
  delta = 1 \/ delta = -1 ->
  fst (turn delta w) = Ok tt /\
  orientation (the_uboat (snd (turn delta w)))
  = (orientation (the_uboat w) + delta + 6) mod 6.
Proof. intros _ _. rewrite turn_eq. split; reflexivity. Qed.

Lemma turn_sets_orientation_witness :
  0 <= orientation (the_uboat initial_world) <= 5 /\
  (-1 = 1 \/ -1 = -1) /\
  fst (turn (-1) initial_world) = Ok tt /\
  orientation (the_uboat (snd (turn (-1) initial_world))) = 5.
Proof.
  split; [cbn; lia | ]. split; [right; reflexivity | ].
  apply (turn_sets_orientation initial_world (-1)); [cbn; lia | right; reflexivity].
Defined.

(** C5. From a water tile inside the grid whose neighbour in the facing
    direction is also a water tile inside the grid, and for an orientation
    o in 0-5: [move_forward], then the orientation set to (o + 3) mod 6,
    then [move_forward] again brings the submarine back to the row and
    column it started from. *)
Theorem forward_then_back (w : World) :
  let u := the_uboat w in
  the_map w = game_map ->
  0 <= orientation u <= 5 ->
  Spec.enterable game_map (row u) (col u) = true ->
  Spec.enterable game_map
    (fst (Spec.neighbor (row u, col u) (orientation u)))
    (snd (Spec.neighbor (row u, col u) (orientation u))) = true ->
  exists w' : World,
    (move_forward ;;
     set_orientation ((orientation u + 3) mod 6) ;;
     move_forward) w = (Ok tt, w') /\
    row (the_uboat w') = row u /\
    col (the_uboat w') = col u.
Proof.
  intros u Hm Ho Hhere Hthere.
  pose proof (move_forward_eq w Hm Ho) as H1. cbv zeta in H1. fold u in H1.
  pose proof (neighbor_reverse (row u, col u) (orientation u) Ho) as Hback.
  destruct (Spec.neighbor (row u, col u) (orientation u)) as [nr nc].
  cbn [fst snd] in Hthere. rewrite Hthere in H1.
  rewrite (bind_ok _ _ _ _ _ H1).
  set (w1 := moved_to w nr nc).
  set (w2 := mkWorld (mkUboat nr nc (Spec.reverse (orientation u)))
                     (the_map w) (the_state w)).
  assert (Hset : set_orientation ((orientation u + 3) mod 6) w1 = (Ok tt, w2))
    by reflexivity.
  rewrite (bind_ok _ _ _ _ _ Hset).
  assert (Ho2 : 0 <= orientation (the_uboat w2) <= 5).
  { cbn [w2 the_uboat orientation]. unfold Spec.reverse.
    pose proof (Z.mod_pos_bound (orientation u + 3) 6). lia. }
  pose proof (move_forward_eq w2 Hm Ho2) as H2. cbv zeta in H2.
  cbn [w2 the_uboat row col orientation] in H2. rewrite Hback in H2.
  fold w2 in H2. rewrite Hhere in H2.
  eexists. split; [exact H2 | ]. split; reflexivity.
Qed.

Lemma forward_then_back_witness :
  exists w' : World,
    (move_forward ;;
     set_orientation ((0 + 3) mod 6) ;;
     move_forward) initial_world = (Ok tt, w') /\
    row (the_uboat w') = 7 /\
    col (the_uboat w') = 7.
Proof.
  apply (forward_then_back initial_world); [reflexivity | cbn; lia | reflexivity | reflexivity].
Defined.

(** C6. For an orientation in 0-5, six [turn(+1)] calls in a row return
    the orientation to the value it started from (and nothing else has
    changed). *)
Theorem six_turns_identity (w : World) :
  0 <= orientation (the_uboat w) <= 5 ->
  (turn 1 ;; turn 1 ;; turn 1 ;; turn 1 ;; turn 1 ;; turn 1) w = (Ok tt, w).
Proof.
  intros Ho. destruct w as [[r c o] gm st]. cbn [the_uboat orientation] in Ho.
  each_orientation Ho; reflexivity.
Qed.

Lemma six_turns_identity_witness :
  (turn 1 ;; turn 1 ;; turn 1 ;; turn 1 ;; turn 1 ;; turn 1)
    (mkWorld (mkUboat 3 4 5) game_map game_state)
  = (Ok tt, mkWorld (mkUboat 3 4 5) game_map game_state).
Proof.
  apply (six_turns_identity (mkWorld (mkUboat 3 4 5) game_map game_state)).
  cbn; lia.
Defined.

(** C7. At row 7, column 7, orientation 0 on the fixed map [move_forward]
    commits the move: the column becomes 8 and the row stays 7. *)
Theorem move_east_from_start (st : GameState) :
  move_forward (mkWorld (mkUboat 7 7 0) game_map st)
  = (Ok tt, mkWorld (mkUboat 7 8 0) game_map st).
Proof. reflexivity. Qed.

(** C8. [turn] returns normally and writes the orientation only: the row
    and the column of the submarine, the terrain map and the game-state bag
    are what they were, for every delta (so for +1 and -1). *)
Theorem turn_frame (w : World) (delta : Z) :
  let w' := snd (turn delta w) in
  fst (turn delta w) = Ok tt /\
  row (the_uboat w') = row (the_uboat w) /\
  col (the_uboat w') = col (the_uboat w) /\
  the_map w' = the_map w /\
  the_state w' = the_state w.
Proof. rewrite turn_eq. cbn. auto. Qed.

(** C9. [move_forward] never writes the orientation: committed, blocked or
    stopped by an [IndexError], the orientation afterwards is the one
    before; the map and the game-state bag are untouched as well. *)
Theorem move_forward_keeps_orientation (w : World) :
  let w' := snd (move_forward w) in
  orientation (the_uboat w') = orientation (the_uboat w) /\
  the_map w' = the_map w /\
  the_state w' = the_state w.
Proof. exact (move_forward_position_only w). Qed.

(** C10. For every integer pair (row, col): with
    q = col - (row - (row AND 1)) / 2, r = row, s = -q - r, the conversion
    back, row' = r and col' = q + (r - (r AND 1)) / 2, gives (row, col)
    again; and from a cube coordinate with s = -q - r the conversion to
    offset and back gives the cube coordinate again. *)
Theorem conversions_inverse (r0 c0 : Z) :
  let '(q, r, s) := Spec.offset_to_cube (r0, c0) in
  q = c0 - (r0 - Z.land r0 1) / 2 /\
  r = r0 /\
  s = - q - r /\
  Spec.cube_to_offset (q, r, s) = (r, q + (r - Z.land r 1) / 2) /\
  Spec.cube_to_offset (q, r, s) = (r0, c0) /\
  forall q' r' : Z,
    Spec.offset_to_cube (Spec.cube_to_offset (q', r', - q' - r'))
    = (q', r', - q' - r').
Proof.
  pose proof (offset_cube_offset (r0, c0)) as H.
  unfold Spec.offset_to_cube in H |- *.
  repeat split; try assumption.
  intros q' r'. apply cube_offset_cube.
Qed.

(** * Further properties of the code *)

(** ** Turning *)

Lemma turn_mod_fold (o d1 d2 : Z) :
  ((o + d1 + 6) mod 6 + d2 + 6) mod 6 = (o + (d1 + d2) + 6) mod 6.
Proof. Z.div_mod_to_equations. lia. Qed.

Lemma with_orientation_same (w : World) :
  with_orientation w (orientation (the_uboat w)) = w.
Proof. destruct w as [[r c o] gm st]. reflexivity. Qed.

Lemma turn_as_with_orientation (direction : Z) (w : World) :
  turn direction w
  = (Ok tt, with_orientation w ((orientation (the_uboat w) + direction + 6) mod 6)).
Proof. reflexivity. Qed.

Lemma turn_compose (w : World) (d1 d2 : Z) :
  (turn d1 ;; turn d2) w = turn (d1 + d2) w.
Proof.
  rewrite (bind_ok _ _ _ _ _ (turn_eq d1 w)). rewrite !turn_eq.
  cbn [the_uboat the_map the_state row col orientation].
  now rewrite turn_mod_fold.
Qed.

(** X1. Two turns in a row are one turn by the sum of the deltas, whatever
    the integers involved (the stored orientation need not be in 0-5). *)
Theorem turn_turn (w : World) (d1 d2 : Z) :
  (turn d1 ;; turn d2) w = turn (d1 + d2) w.
Proof. exact (turn_compose w d1 d2). Qed.

(** X2. With the orientation in 0-5, a turn followed by the opposite turn
    gives the store back. *)
Theorem turn_then_opposite (w : World) (d : Z) :
  0 <= orientation (the_uboat w) <= 5 ->
  (turn d ;; turn (- d)) w = (Ok tt, w).
Proof.
  intros Ho. rewrite turn_compose, turn_as_with_orientation.
  replace ((orientation (the_uboat w) + (d + - d) + 6) mod 6)
    with (orientation (the_uboat w)) by (Z.div_mod_to_equations; lia).
  now rewrite with_orientation_same.
Qed.

Lemma turn_then_opposite_witness :
  (turn 1 ;; turn (- (1))) initial_world = (Ok tt, initial_world).
Proof. apply (turn_then_opposite initial_world 1). cbn; lia. Defined.

Lemma turn_repeat_eq (n : nat) (d : Z) (w : World) :
  0 <= orientation (the_uboat w) <= 5 ->
  perform_all (repeat (Turn d) n) w
  = (Ok tt, with_orientation w ((orientation (the_uboat w) + Z.of_nat n * d) mod 6)).
Proof.
  revert w. induction n as [ | n IH]; intros w Ho.
  - cbn [repeat perform_all]. unfold ret. f_equal.
    replace ((orientation (the_uboat w) + Z.of_nat 0 * d) mod 6)
      with (orientation (the_uboat w)) by (Z.div_mod_to_equations; lia).
    symmetry. apply with_orientation_same.
  - cbn [repeat perform_all perform].
    rewrite (bind_ok _ _ _ _ _ (turn_as_with_orientation d w)).
    set (o1 := (orientation (the_uboat w) + d + 6) mod 6).
    assert (Ho1 : 0 <= o1 <= 5).
    { subst o1. pose proof (Z.mod_pos_bound (orientation (the_uboat w) + d + 6) 6). lia. }
    rewrite (IH (with_orientation w o1)) by exact Ho1.
    unfold with_orientation. cbn [the_uboat the_map the_state row col orientation].
    do 3 f_equal. subst o1.
    rewrite Nat2Z.inj_succ. Z.div_mod_to_equations. nia.
Qed.

(** X3. With the orientation in 0-5, [n] turns by [d] leave the
    orientation at (orientation + n * d) mod 6 and write nothing else. *)
Theorem turn_repeated (n : nat) (d : Z) (w : World) :
  0 <= orientation (the_uboat w) <= 5 ->
  perform_all (repeat (Turn d) n) w
  = (Ok tt, with_orientation w ((orientation (the_uboat w) + Z.of_nat n * d) mod 6)).
Proof. exact (turn_repeat_eq n d w). Qed.

Lemma turn_repeated_witness :
  perform_all (repeat (Turn (-1)) 4) initial_world
  = (Ok tt, with_orientation initial_world 2).
Proof. apply (turn_repeated 4 (-1) initial_world). cbn; lia. Defined.

(** X4. The image rotation [-60 * orientation] after a turn lies in
    (-360, 0] and equals the rotation before minus 60 degrees per step,
    modulo a full circle. *)
Theorem turn_rotates_sprite (w : World) (d : Z) :
  let w' := snd (turn d w) in
  -360 < sprite_angle (the_uboat w') <= 0 /\
  (sprite_angle (the_uboat w') - (sprite_angle (the_uboat w) - 60 * d)) mod 360 = 0.
Proof.
  rewrite turn_eq. cbn [snd the_uboat]. unfold sprite_angle.
  cbn [orientation]. split.
  - pose proof (Z.mod_pos_bound (orientation (the_uboat w) + d + 6) 6). lia.
  - Z.div_mod_to_equations. lia.
Qed.

(** ** Moving on an arbitrary map *)

Lemma getitem_first {A : Type} (l : list A) (d : A) :
  0 < Py.len l -> Py.getitem l 0 = Some (hd d l).
Proof.
  destruct l as [ | x l]; unfold Py.len; cbn [List.length hd]; intros H.
  - lia.
  - reflexivity.
Qed.

Lemma getitem_in_range {A : Type} (l : list A) (i : Z) :
  0 <= i < Py.len l ->
  exists a, Py.getitem l i = Some a /\ nth_error l (Z.to_nat i) = Some a.
Proof.
  intros [H0 H1]. rewrite getitem_nonneg by assumption.
  destruct (nth_error l (Z.to_nat i)) as [a | ] eqn:E.
  - exists a. auto.
  - apply nth_error_None in E. unfold Py.len in H1. lia.
Qed.

Lemma in_bounds_spec (gm : list (list Z)) (r c : Z) :
  Spec.in_bounds gm r c = true <->
  (0 <= r < Py.len gm) /\ (0 <= c < Py.len (hd [] gm)).
Proof.
  unfold Spec.in_bounds.
  rewrite !andb_true_iff, !Z.leb_le, !Z.ltb_lt. tauto.
Qed.

Lemma covered_lookup (gm : list (list Z)) (r c : Z) :
  rows_cover_first gm ->
  Spec.in_bounds gm r c = true ->
  exists row_data t,
    Py.getitem gm r = Some row_data /\
    Py.getitem row_data c = Some t /\
    Spec.terrain_at gm r c = Some t.
Proof.
  intros Hcov Hb. apply in_bounds_spec in Hb. destruct Hb as [Hr Hc].
  destruct (getitem_in_range gm r Hr) as (row_data & Hg & Hn).
  unfold rows_cover_first in Hcov. rewrite Forall_forall in Hcov.
  pose proof (Hcov row_data (nth_error_In _ _ Hn)) as Hlen.
  destruct (getitem_in_range row_data c ltac:(lia)) as (t & Hg' & Hn').
  exists row_data, t. repeat split; try assumption.
  unfold Spec.terrain_at.
  destruct (Z.leb_spec 0 r); [ | lia]. destruct (Z.leb_spec 0 c); [ | lia].
  cbn [andb]. now rewrite Hn.
Qed.

(** The commit half of [move_forward], once the candidate is known. *)
Lemma move_forward_from_target (w : World) (c0 c1 : cube) (nr nc : Z) :
  move_forward_target w = (Ok (c0, c1, (nr, nc)), w) ->
  rows_cover_first (the_map w) ->
  move_forward w
  = (Ok tt, if Spec.enterable (the_map w) nr nc then moved_to w nr nc else w).
Proof.
  intros Ht Hcov. unfold move_forward. rewrite (bind_ok _ _ _ _ _ Ht).
  destruct c0 as [[q0 r0] s0]. destruct c1 as [[q1 r1] s1].
  unfold global_game_map at 1. unfold bind at 1.
  set (gm := the_map w) in *.
  unfold Spec.enterable.
  destruct (Spec.in_bounds gm nr nc) eqn:Eb.
  - destruct (covered_lookup gm nr nc Hcov Eb) as (row_data & t & Hr & Hc & Ht').
    apply in_bounds_spec in Eb. destruct Eb as [Hrow Hcol].
    assert (E1 : (0 <=? nr) && (nr <? Py.len gm) = true).
    { rewrite andb_true_iff, Z.leb_le, Z.ltb_lt. exact Hrow. }
    rewrite E1.
    rewrite (bind_ok _ _ _ _ _ (index_some _ _ _ _ (getitem_first gm [] ltac:(lia)))).
    assert (E2 : (0 <=? nc) && (nc <? Py.len (hd [] gm)) = true).
    { rewrite andb_true_iff, Z.leb_le, Z.ltb_lt. exact Hcol. }
    rewrite E2.
    rewrite (bind_ok _ _ _ _ _ (index_some _ _ _ _ Hr)).
    rewrite (bind_ok _ _ _ _ _ (index_some _ _ _ _ Hc)).
    rewrite Ht'. cbn [andb]. unfold Spec.water.
    destruct ((t =? DEEP_WATER) || (t =? SHALLOW_WATER)); reflexivity.
  - cbn [andb].
    destruct ((0 <=? nr) && (nr <? Py.len gm)) eqn:E1; [ | reflexivity].
    apply andb_true_iff in E1. rewrite Z.leb_le, Z.ltb_lt in E1.
    rewrite (bind_ok _ _ _ _ _ (index_some _ _ _ _ (getitem_first gm [] ltac:(lia)))).
    destruct ((0 <=? nc) && (nc <? Py.len (hd [] gm))) eqn:E2; [ | reflexivity].
    exfalso. apply andb_true_iff in E2. rewrite Z.leb_le, Z.ltb_lt in E2.
    assert (Spec.in_bounds gm nr nc = true) by (apply in_bounds_spec; lia).
    congruence.
Qed.

Lemma move_forward_covered_eq (w : World) :
  rows_cover_first (the_map w) ->
  0 <= orientation (the_uboat w) <= 5 ->
  let u := the_uboat w in
  move_forward w
  = (Ok tt,
     if Spec.enterable (the_map w)
          (fst (Spec.neighbor (row u, col u) (orientation u)))
          (snd (Spec.neighbor (row u, col u) (orientation u)))
     then moved_to w (fst (Spec.neighbor (row u, col u) (orientation u)))
                     (snd (Spec.neighbor (row u, col u) (orientation u)))
     else w).
Proof.
  intros Hcov Ho u.
  pose proof (move_forward_target_eq w Ho) as Ht. cbv zeta in Ht. fold u in Ht.
  unfold Spec.neighbor.
  destruct (Spec.cube_to_offset _) as [nr nc] eqn:E.
  cbn [fst snd]. exact (move_forward_from_target w _ _ nr nc Ht Hcov).
Qed.

Lemma game_map_covered : rows_cover_first game_map.
Proof.
  unfold rows_cover_first. rewrite Forall_forall. intros row_data H.
  rewrite (game_map_rows row_data H). change (Py.len (hd [] game_map)) with 15. lia.
Qed.



(** X6. The bounds test measures every row by the first one: when the
    candidate passes it but its own row is too short to hold that column,
    [move_forward] raises [IndexError] and leaves the store as it was. *)
Theorem move_forward_short_row_raises
    (w : World) (c0 c1 : cube) (nr nc : Z) (row_data : list Z) :
  move_forward_target w = (Ok (c0, c1, (nr, nc)), w) ->
  Spec.in_bounds (the_map w) nr nc = true ->
  Py.getitem (the_map w) nr = Some row_data ->
  Py.len row_data <= nc ->
  move_forward w = (Raise IndexError, w).
Proof.
  intros Ht Hb Hrow Hshort. apply in_bounds_spec in Hb. destruct Hb as [Hr Hc].
  unfold move_forward. rewrite (bind_ok _ _ _ _ _ Ht).
  destruct c0 as [[q0 r0] s0]. destruct c1 as [[q1 r1] s1].
  unfold global_game_map at 1. unfold bind at 1.
  set (gm := the_map w) in *.
  assert (E1 : (0 <=? nr) && (nr <? Py.len gm) = true).
  { rewrite andb_true_iff, Z.leb_le, Z.ltb_lt. exact Hr. }
  rewrite E1.
  rewrite (bind_ok _ _ _ _ _ (index_some _ _ _ _ (getitem_first gm [] ltac:(lia)))).
  assert (E2 : (0 <=? nc) && (nc <? Py.len (hd [] gm)) = true).
  { rewrite andb_true_iff, Z.leb_le, Z.ltb_lt. exact Hc. }
  rewrite E2.
  rewrite (bind_ok _ _ _ _ _ (index_some _ _ _ _ Hrow)).
  assert (Hnone : Py.getitem row_data nc = None).
  { rewrite getitem_nonneg by lia. apply nth_error_None.
    unfold Py.len in Hshort. lia. }
  apply bind_raise. unfold index. now rewrite Hnone.
Qed.

Lemma move_forward_short_row_raises_witness :
  move_forward (mkWorld (mkUboat 0 1 1) [[1; 1]; [1]] game_state)
  = (Raise IndexError, mkWorld (mkUboat 0 1 1) [[1; 1]; [1]] game_state).
Proof.
  apply (move_forward_short_row_raises
           (mkWorld (mkUboat 0 1 1) [[1; 1]; [1]] game_state)
           (1, 0, -1) (1, 1, -2) 1 1 [1]).
  - reflexivity.
  - reflexivity.
  - reflexivity.
  - cbn; lia.
Defined.

(** X7. An orientation above 5 or below -6 makes [move_forward] raise
    [IndexError] on any map, before anything is written. *)
Theorem move_forward_bad_orientation_raises (w : World) :
  orientation (the_uboat w) > 5 \/ orientation (the_uboat w) < -6 ->
  move_forward w = (Raise IndexError, w).
Proof.
  intros Ho. unfold move_forward. apply bind_raise.
  unfold move_forward_target.
  rewrite (bind_ok self _ w w (the_uboat w) eq_refl).
  apply bind_raise. unfold index.
  assert (Hnone : Py.getitem orientation_to_cube_map (orientation (the_uboat w)) = None).
  { unfold Py.getitem. change (Py.len orientation_to_cube_map) with 6.
    destruct (Z.leb_spec 0 (orientation (the_uboat w))).
    - apply nth_error_None. cbn [orientation_to_cube_map List.length]. lia.
    - destruct (Z.leb_spec 0 (6 + orientation (the_uboat w))); [lia | reflexivity]. }
  now rewrite Hnone.
Qed.

Lemma move_forward_bad_orientation_raises_witness :
  move_forward (mkWorld (mkUboat 7 7 (-7)) game_map game_state)
  = (Raise IndexError, mkWorld (mkUboat 7 7 (-7)) game_map game_state).
Proof.
  apply (move_forward_bad_orientation_raises
           (mkWorld (mkUboat 7 7 (-7)) game_map game_state)).
  right. cbn; lia.
Defined.

Lemma move_forward_target_wrapped (w : World) :
  -6 <= orientation (the_uboat w) <= -1 ->
  let u := the_uboat w in
  let c0 := Spec.offset_to_cube (row u, col u) in
  let c1 := Spec.cube_add c0 (Spec.direction_vector (orientation u + 6)) in
  move_forward_target w = (Ok (c0, c1, Spec.cube_to_offset c1), w).
Proof.
  intros Ho. destruct w as [[r c o] gm st]. cbn [the_uboat orientation row col] in *.
  assert (H : o = -6 \/ o = -5 \/ o = -4 \/ o = -3 \/ o = -2 \/ o = -1) by lia.
  destruct H as [H | [H | [H | [H | [H | H]]]]]; rewrite H; reflexivity.
Qed.

(** X8. An orientation from -6 to -1 does not raise: list indexing wraps
    it, so on a covered map [move_forward] moves as it would for
    orientation + 6, and the stored orientation stays the negative one. *)
Theorem move_forward_negative_orientation_wraps (w : World) :
  rows_cover_first (the_map w) ->
  -6 <= orientation (the_uboat w) <= -1 ->
  let u := the_uboat w in
  let t := Spec.neighbor (row u, col u) (orientation u + 6) in
  move_forward w
  = (Ok tt,
     if Spec.enterable (the_map w) (fst t) (snd t)
     then moved_to w (fst t) (snd t) else w).
Proof.
  intros Hcov Ho u t.
  pose proof (move_forward_target_wrapped w Ho) as Ht. cbv zeta in Ht. fold u in Ht.
  subst t. unfold Spec.neighbor.
  destruct (Spec.cube_to_offset _) as [nr nc]. cbn [fst snd].
  exact (move_forward_from_target w _ _ nr nc Ht Hcov).
Qed.

Lemma move_forward_negative_orientation_wraps_witness :
  move_forward (mkWorld (mkUboat 7 7 (-1)) game_map game_state)
  = (Ok tt, mkWorld (mkUboat 6 8 (-1)) game_map game_state).
Proof.
  apply (move_forward_negative_orientation_wraps
           (mkWorld (mkUboat 7 7 (-1)) game_map game_state)).
  - exact game_map_covered.
  - cbn; lia.
Defined.

(** ** The six neighbours *)

Lemma neighbor_table (r c o : Z) :
  0 <= o <= 5 ->
  Spec.neighbor (r, c) o
  = match o with
    | 0 => (r, c + 1)
    | 1 => (r + 1, c + r mod 2)
    | 2 => (r + 1, c - 1 + r mod 2)
    | 3 => (r, c - 1)
    | 4 => (r - 1, c - 1 + r mod 2)
    | _ => (r - 1, c + r mod 2)
    end.
Proof.
  intros Ho.
  each_orientation Ho;
    unfold Spec.neighbor, Spec.cube_to_offset, Spec.cube_add, Spec.offset_to_cube;
    cbv [Spec.direction_vector]; rewrite !land_1_mod;
    (f_equal; try lia; Z.div_mod_to_equations; lia).
Qed.

(** X9. In offset coordinates the candidate of [move_forward] is the
    odd-row-shifted neighbour: east and west change the column by one;
    the four diagonal facings change the row by one and the column by
    the parity of the current row (south-east, north-east) or by that
    parity minus one (south-west, north-west). *)
Theorem move_forward_target_offsets (w : World) :
  0 <= orientation (the_uboat w) <= 5 ->
  let u := the_uboat w in
  exists c0 c1 : cube,
    move_forward_target w
    = (Ok (c0, c1,
           match orientation u with
           | 0 => (row u, col u + 1)
           | 1 => (row u + 1, col u + row u mod 2)
           | 2 => (row u + 1, col u - 1 + row u mod 2)
           | 3 => (row u, col u - 1)
           | 4 => (row u - 1, col u - 1 + row u mod 2)
           | _ => (row u - 1, col u + row u mod 2)
           end), w).
Proof.
  intros Ho u.
  pose proof (move_forward_target_eq w Ho) as Ht. cbv zeta in Ht. fold u in Ht.
  do 2 eexists. rewrite Ht. do 3 f_equal.
  exact (neighbor_table (row u) (col u) (orientation u) Ho).
Qed.

Lemma move_forward_target_offsets_witness :
  exists c0 c1 : cube,
    move_forward_target (mkWorld (mkUboat 7 7 2) game_map game_state)
    = (Ok (c0, c1, (8, 7)), mkWorld (mkUboat 7 7 2) game_map game_state).
Proof.
  apply (move_forward_target_offsets (mkWorld (mkUboat 7 7 2) game_map game_state)).
  cbn; lia.
Defined.

(** X10. From one cell the six orientations 0-5 lead to six different
    candidates: two facings with the same candidate are the same facing. *)
Theorem facings_have_distinct_targets
    (w : World) (o1 o2 : Z) (a1 b1 a2 b2 : cube) (rc : Z * Z) :
  0 <= o1 <= 5 ->
  0 <= o2 <= 5 ->
  fst (move_forward_target (with_orientation w o1)) = Ok (a1, b1, rc) ->
  fst (move_forward_target (with_orientation w o2)) = Ok (a2, b2, rc) ->
  o1 = o2.
Proof.
  intros H1 H2 E1 E2.
  pose proof (move_forward_target_eq (with_orientation w o1) H1) as T1.
  pose proof (move_forward_target_eq (with_orientation w o2) H2) as T2.
  cbv zeta in T1, T2.
  cbn [with_orientation the_uboat row col orientation] in T1, T2.
  rewrite T1 in E1. rewrite T2 in E2. cbn [fst] in E1, E2.
  assert (N1 : Spec.neighbor (row (the_uboat w), col (the_uboat w)) o1 = rc)
    by (unfold Spec.neighbor; congruence).
  assert (N2 : Spec.neighbor (row (the_uboat w), col (the_uboat w)) o2 = rc)
    by (unfold Spec.neighbor; congruence).
  clear E1 E2 T1 T2. rename N1 into E1. rename N2 into E2.
  rewrite (neighbor_table _ _ o1 H1) in E1.
  rewrite (neighbor_table _ _ o2 H2) in E2.
  destruct rc as [nr nc].
  pose proof (Z.mod_pos_bound (row (the_uboat w)) 2 ltac:(lia)) as Hp.
  each_orientation H1; each_orientation H2;
    injection E1 as E1r E1c; injection E2 as E2r E2c;
    first [reflexivity | exfalso; lia].
Qed.

Lemma facings_have_distinct_targets_witness : 4 = 4.
Proof.
  apply (facings_have_distinct_targets initial_world 4 4
           (4, 7, -11) (4, 6, -10) (4, 7, -11) (4, 6, -10) (6, 7)).
  - lia.
  - lia.
  - reflexivity.
  - reflexivity.
Defined.

(** X11. On a covered map and for an orientation in 0-5, [move_forward]
    either leaves the store as it was or puts the submarine on a different
    cell at most one row and one column away. *)
Theorem move_forward_steps_to_adjacent_cell (w : World) :
  rows_cover_first (the_map w) ->
  0 <= orientation (the_uboat w) <= 5 ->
  let u := the_uboat w in
  let u' := the_uboat (snd (move_forward w)) in
  snd (move_forward w) = w \/
  ((row u', col u') <> (row u, col u) /\
   Z.abs (row u' - row u) <= 1 /\
   Z.abs (col u' - col u) <= 1).
Proof.
  intros Hcov Ho u u'. subst u u'.
  rewrite (move_forward_covered_eq w Hcov Ho). cbv zeta. cbn [snd].
  rewrite (neighbor_table _ _ _ Ho).
  pose proof (Z.mod_pos_bound (row (the_uboat w)) 2 ltac:(lia)) as Hp.
  match goal with
  | |- context [if ?b then _ else _] => destruct b
  end; [right | left; reflexivity].
  unfold moved_to. cbn [the_uboat row col].
  each_orientation Ho; cbn [fst snd];
    (split; [intros E; injection E; lia | lia]).
Qed.

Lemma move_forward_steps_to_adjacent_cell_witness :
  let u := the_uboat initial_world in
  let u' := the_uboat (snd (move_forward initial_world)) in
  snd (move_forward initial_world) = initial_world \/
  ((row u', col u') <> (row u, col u) /\
   Z.abs (row u' - row u) <= 1 /\
   Z.abs (col u' - col u) <= 1).
Proof.
  apply (move_forward_steps_to_adjacent_cell initial_world).
  - exact game_map_covered.
  - cbn; lia.
Defined.

(** ** Runs of operations *)

Lemma perform_all_app (l1 l2 : list action) (w : World) :
  perform_all (l1 ++ l2) w
  = match perform_all l1 w with
    | (Ok _, w1) => perform_all l2 w1
    | (Raise e, w1) => (Raise e, w1)
    end.
Proof.
  revert w. induction l1 as [ | a l1 IH]; intros w.
  - reflexivity.
  - cbn [app perform_all]. unfold bind.
    destruct (perform a w) as [[[] | e] w1]; [apply IH | reflexivity].
Qed.

Lemma perform_all_frame (l : list action) (w : World) :
  the_map (snd (perform_all l w)) = the_map w /\
  the_state (snd (perform_all l w)) = the_state w.
Proof.
  revert w. induction l as [ | a l IH]; intros w.
  - cbn. auto.
  - cbn [perform_all]. unfold bind.
    assert (Ha : the_map (snd (perform a w)) = the_map w /\
                 the_state (snd (perform a w)) = the_state w).
    { destruct a as [d | ]; cbn [perform].
      - rewrite turn_eq. cbn. auto.
      - destruct (move_forward_position_only w) as (_ & Hm & Hs). auto. }
    destruct (perform a w) as [[[] | e] w1]; cbn [snd] in *.
    + destruct (IH w1) as [Hm Hs]. destruct Ha as [Hm' Hs']. split; congruence.
    + exact Ha.
Qed.

Lemma perform_all_from_anywhere (l : list action) :
  forall (w : World) (r0 c0 : Z),
    rows_cover_first (the_map w) ->
    0 <= orientation (the_uboat w) <= 5 ->
    (row (the_uboat w), col (the_uboat w)) = (r0, c0) \/
    Spec.enterable (the_map w) (row (the_uboat w)) (col (the_uboat w)) = true ->
    exists w' : World,
      perform_all l w = (Ok tt, w') /\
      the_map w' = the_map w /\
      the_state w' = the_state w /\
      0 <= orientation (the_uboat w') <= 5 /\
      ((row (the_uboat w'), col (the_uboat w')) = (r0, c0) \/
       Spec.enterable (the_map w) (row (the_uboat w')) (col (the_uboat w')) = true).
Proof.
  induction l as [ | a l IH]; intros w r0 c0 Hcov Ho Hpos.
  - exists w. cbn. auto.
  - assert (Ha : exists w1, perform a w = (Ok tt, w1) /\
                   the_map w1 = the_map w /\ the_state w1 = the_state w /\
                   0 <= orientation (the_uboat w1) <= 5 /\
                   ((row (the_uboat w1), col (the_uboat w1)) = (r0, c0) \/
                    Spec.enterable (the_map w) (row (the_uboat w1))
                                   (col (the_uboat w1)) = true)).
    { destruct a as [d | ]; cbn [perform].
      - eexists. split; [apply turn_eq | ].
        cbn [the_map the_state the_uboat row col orientation].
        pose proof (Z.mod_pos_bound (orientation (the_uboat w) + d + 6) 6).
        repeat split; try reflexivity; try lia. exact Hpos.
      - eexists. split; [apply (move_forward_covered_eq w Hcov Ho) | ].
        cbv zeta.
        match goal with
        | |- context [if ?b then _ else _] => destruct b eqn:E
        end.
        + unfold moved_to. cbn [the_map the_state the_uboat row col orientation].
          repeat split; try reflexivity; try lia. right. exact E.
        + repeat split; try reflexivity; try lia. exact Hpos. }
    destruct Ha as (w1 & Hrun & Hm & Hs & Ho1 & Hpos1).
    rewrite <- Hm in Hcov, Hpos1.
    destruct (IH w1 r0 c0 Hcov Ho1 Hpos1) as (w' & Hrun' & Hm' & Hs' & Ho' & Hpos').
    exists w'. cbn [perform_all]. rewrite (bind_ok _ _ _ _ _ Hrun).
    rewrite Hm in Hm', Hpos'. rewrite Hs in Hs'. auto.
Qed.

(** X12. On any covered map and from any cell, water or not, with an
    orientation in 0-5: every run of turns and forward moves returns
    normally, keeps the map, the game-state bag and an orientation in 0-5,
    and leaves the submarine either on the cell it started from or on a
    water cell inside the grid. *)
Theorem runs_stay_at_start_or_on_water (l : list action) (w : World) :
  rows_cover_first (the_map w) ->
  0 <= orientation (the_uboat w) <= 5 ->
  exists w' : World,
    perform_all l w = (Ok tt, w') /\
    the_map w' = the_map w /\
    the_state w' = the_state w /\
    0 <= orientation (the_uboat w') <= 5 /\
    ((row (the_uboat w'), col (the_uboat w'))
     = (row (the_uboat w), col (the_uboat w)) \/
     Spec.enterable (the_map w) (row (the_uboat w')) (col (the_uboat w')) = true).
Proof.
  intros Hcov Ho.
  apply (perform_all_from_anywhere l w _ _ Hcov Ho). left. reflexivity.
Qed.

Lemma runs_stay_at_start_or_on_water_witness :
  exists w' : World,
    perform_all [MoveForward; Turn 1; MoveForward]
                (mkWorld (mkUboat 4 4 0) game_map game_state) = (Ok tt, w') /\
    the_map w' = game_map /\
    the_state w' = game_state /\
    0 <= orientation (the_uboat w') <= 5 /\
    ((row (the_uboat w'), col (the_uboat w')) = (4, 4) \/
     Spec.enterable game_map (row (the_uboat w')) (col (the_uboat w')) = true).
Proof.
  apply (runs_stay_at_start_or_on_water [MoveForward; Turn 1; MoveForward]
           (mkWorld (mkUboat 4 4 0) game_map game_state)).
  - exact game_map_covered.
  - cbn; lia.
Defined.

(** X13. Between two water cells of a covered map that face each other:
    forward, three clockwise turns, forward, three clockwise turns gives
    back the whole store, orientation included. *)
Theorem u_turn_round_trip (w : World) :
  let u := the_uboat w in
  rows_cover_first (the_map w) ->
  0 <= orientation u <= 5 ->
  Spec.enterable (the_map w) (row u) (col u) = true ->
  Spec.enterable (the_map w)
    (fst (Spec.neighbor (row u, col u) (orientation u)))
    (snd (Spec.neighbor (row u, col u) (orientation u))) = true ->
  perform_all [MoveForward; Turn 1; Turn 1; Turn 1;
               MoveForward; Turn 1; Turn 1; Turn 1] w
  = (Ok tt, w).
Proof.
  intros u Hcov Ho Hhere Hthere. subst u.
  destruct w as [[r c o] gm st].
  cbn [the_uboat the_map row col orientation] in *.
  set (w0 := mkWorld (mkUboat r c o) gm st).
  destruct (Spec.neighbor (r, c) o) as [nr nc] eqn:En. cbn [fst snd] in Hthere.
  change [MoveForward; Turn 1; Turn 1; Turn 1; MoveForward; Turn 1; Turn 1; Turn 1]
    with ([MoveForward] ++ repeat (Turn 1) 3 ++ [MoveForward] ++ repeat (Turn 1) 3).
  (* first move *)
  pose proof (move_forward_covered_eq w0 Hcov Ho) as H1. cbv zeta in H1.
  cbn [w0 the_uboat the_map row col orientation] in H1.
  rewrite En in H1. cbn [fst snd] in H1. rewrite Hthere in H1.
  rewrite perform_all_app. cbn [perform_all perform].
  rewrite (bind_ok _ _ _ _ _ H1). unfold ret at 1.
  (* three turns *)
  set (w1 := moved_to _ nr nc).
  assert (Ho1 : 0 <= orientation (the_uboat w1) <= 5) by exact Ho.
  rewrite perform_all_app. rewrite (turn_repeat_eq 3 1 w1 Ho1).
  cbn [w1 moved_to the_uboat the_map the_state row col orientation with_orientation].
  change (Z.of_nat 3 * 1) with 3. fold (Spec.reverse o).
  (* second move *)
  set (w2 := mkWorld (mkUboat nr nc (Spec.reverse o)) gm st).
  assert (Ho2 : 0 <= orientation (the_uboat w2) <= 5).
  { cbn [w2 the_uboat orientation]. unfold Spec.reverse.
    pose proof (Z.mod_pos_bound (o + 3) 6). lia. }
  pose proof (move_forward_covered_eq w2 Hcov Ho2) as H2. cbv zeta in H2.
  cbn [w2 the_uboat the_map row col orientation] in H2.
  rewrite <- En in H2. rewrite (neighbor_reverse (r, c) o Ho) in H2.
  cbn [fst snd] in H2. rewrite Hhere in H2.
  rewrite perform_all_app. cbn [perform_all perform].
  fold w2. rewrite (bind_ok _ _ _ _ _ H2). unfold ret at 1.
  (* three turns again *)
  set (w3 := moved_to _ r c).
  assert (Ho3 : 0 <= orientation (the_uboat w3) <= 5) by exact Ho2.
  rewrite (turn_repeat_eq 3 1 w3 Ho3).
  subst w3 w2 w0. unfold with_orientation, moved_to, Spec.reverse.
  cbn [the_uboat the_map the_state row col orientation].
  do 3 f_equal. change (Z.of_nat 3 * 1) with 3. Z.div_mod_to_equations. lia.
Qed.

Lemma u_turn_round_trip_witness :
  perform_all [MoveForward; Turn 1; Turn 1; Turn 1;
               MoveForward; Turn 1; Turn 1; Turn 1] initial_world
  = (Ok tt, initial_world).
Proof.
  apply (u_turn_round_trip initial_world).
  - exact game_map_covered.
  - cbn; lia.
  - reflexivity.
  - reflexivity.
Defined.

(** ** The event loop *)

Lemma keydown_eq (k : key) (w : World) :
  keydown k w = perform_all (action_of_key k) w.
Proof.
  destruct k; unfold keydown; cbn [action_of_key perform_all perform].
  - rewrite (bind_ok _ _ _ _ _ (turn_eq 1 w)). reflexivity.
  - rewrite (bind_ok _ _ w w tt eq_refl).
    rewrite (bind_ok _ _ _ _ _ (turn_eq (-1) w)). reflexivity.
  - rewrite (bind_ok _ _ w w tt eq_refl). rewrite (bind_ok _ _ w w tt eq_refl).
    unfold bind, ret. destruct (move_forward w) as [[[] | e] w1]; reflexivity.
  - reflexivity.
Qed.

Lemma for_events_eq (evs : list event) :
  forall (running : bool) (w : World),
    for_events evs running w
    = match perform_all (actions_of evs) w with
      | (Ok _, w') => (Ok (running && negb (existsb is_quit evs)), w')
      | (Raise e, w') => (Raise e, w')
      end.
Proof.
  induction evs as [ | e evs IH]; intros running w.
  - cbn. now rewrite andb_true_r.
  - cbn [for_events actions_of flat_map existsb]. fold (actions_of evs).
    destruct e as [ | k | ]; cbn [is_quit orb negb app].
    + assert (H : handle_event running QUIT w = (Ok false, w)) by reflexivity.
      rewrite (bind_ok _ _ _ _ _ H). rewrite IH. now rewrite andb_false_r.
    + rewrite perform_all_app.
      unfold handle_event. unfold bind at 1. unfold bind at 1.
      rewrite keydown_eq.
      destruct (perform_all (action_of_key k) w) as [[[] | ex] w1];
        [ | reflexivity].
      unfold ret. apply IH.
    + assert (H : handle_event running OTHER_EVENT w = (Ok running, w))
        by reflexivity.
      rewrite (bind_ok _ _ _ _ _ H). apply IH.
Qed.

(** X14. A frame of events acts on the store as its key presses do, in
    order: D is a clockwise turn, A a counter-clockwise turn, W a forward
    move, and every other key or event nothing.  A QUIT does not cut the
    frame short; it only clears [running], which stays cleared. *)
Theorem frame_is_its_key_presses (evs : list event) (running : bool) (w : World) :
  for_events evs running w
  = match perform_all (actions_of evs) w with
    | (Ok _, w') => (Ok (running && negb (existsb is_quit evs)), w')
    | (Raise e, w') => (Raise e, w')
    end.
Proof. exact (for_events_eq evs running w). Qed.

Lemma main_loop_safe (frames : list (list event)) :
  forall w : World,
    safe w ->
    exists w' : World,
      main_loop frames w = (Ok tt, w') /\ safe w' /\ the_state w' = the_state w.
Proof.
  induction frames as [ | evs frames IH]; intros w Hw.
  - exists w. cbn. auto.
  - destruct (perform_all_safe (actions_of evs) w Hw) as (w1 & Hrun & Hw1).
    pose proof (perform_all_frame (actions_of evs) w) as [_ Hs].
    rewrite Hrun in Hs. cbn [snd] in Hs.
    cbn [main_loop]. unfold bind at 1. rewrite for_events_eq, Hrun.
    destruct (true && negb (existsb is_quit evs)).
    + destruct (IH w1 Hw1) as (w' & Hloop & Hw' & Hs').
      exists w'. split; [exact Hloop | ]. split; [exact Hw' | congruence].
    + exists w1. auto.
Qed.

(** X15. Whatever events arrive, frame after frame, the loop started from
    the initial store never raises, and when it stops the submarine is
    inside the map on deep or shallow water with an orientation in 0-5.
    The game-state bag is never written: it still records position (7, 7)
    and orientation 0 wherever the submarine has gone. *)
Theorem main_loop_keeps_submarine_on_water (frames : list (list event)) :
  exists w' : World,
    main_loop frames initial_world = (Ok tt, w') /\
    the_map w' = game_map /\
    the_state w' = game_state /\
    Spec.enterable game_map (row (the_uboat w')) (col (the_uboat w')) = true /\
    0 <= orientation (the_uboat w') <= 5.
Proof.
  destruct (main_loop_safe frames initial_world initial_world_safe)
    as (w' & Hrun & (Hm & He & Ho) & Hs).
  exists w'. auto.
Qed.

Lemma for_events_quit (evs : list event) (w : World) :
  In QUIT evs ->
  match for_events evs true w with
  | (Ok running, _) => running = false
  | (Raise _, _) => True
  end.
Proof.
  intros Hq. rewrite for_events_eq.
  destruct (perform_all (actions_of evs) w) as [[[] | e] w1]; [ | exact I].
  assert (E : existsb is_quit evs = true).
  { apply existsb_exists. exists QUIT. auto. }
  now rewrite E.
Qed.

(** X16. A frame that holds a QUIT is the last one: the frames polled
    after it have no effect. *)
Theorem quit_ends_the_loop (evs : list event) (rest : list (list event)) (w : World) :
  In QUIT evs ->
  main_loop (evs :: rest) w = main_loop [evs] w.
Proof.
  intros Hq. pose proof (for_events_quit evs w Hq) as H.
  cbn [main_loop]. unfold bind.
  destruct (for_events evs true w) as [[running | e] w1]; [ | reflexivity].
  now rewrite H.
Qed.

Lemma quit_ends_the_loop_witness :
  main_loop ([KEYDOWN K_w; QUIT; KEYDOWN K_d] :: [[KEYDOWN K_w]]) initial_world
  = main_loop [[KEYDOWN K_w; QUIT; KEYDOWN K_d]] initial_world.
Proof.
  apply (quit_ends_the_loop [KEYDOWN K_w; QUIT; KEYDOWN K_d] [[KEYDOWN K_w]]
           initial_world).
  right. left. reflexivity.
Defined.

(** ** What is drawn *)

Lemma enumerate_from_In {A : Type} (l : list A) :
  forall (n i : Z) (x : A),
    In (i, x) (enumerate_from n l) <->
    n <= i /\ nth_error l (Z.to_nat (i - n)) = Some x.
Proof.
  induction l as [ | y l IH]; intros n i x; cbn [enumerate_from In].
  - split; [tauto | ]. intros [_ H]. destruct (Z.to_nat (i - n)); discriminate.
  - rewrite IH. split.
    + intros [E | [Hle Hn]].
      * injection E as <- <-. split; [lia | ]. now rewrite Z.sub_diag.
      * split; [lia | ].
        replace (Z.to_nat (i - n)) with (S (Z.to_nat (i - (n + 1)))) by lia.
        exact Hn.
    + intros [Hle Hn]. destruct (Z.eq_dec n i) as [-> | Hne].
      * left. rewrite Z.sub_diag in Hn. cbn in Hn. congruence.
      * right. split; [lia | ].
        replace (Z.to_nat (i - n)) with (S (Z.to_nat (i - (n + 1)))) in Hn by lia.
        exact Hn.
Qed.

Lemma enumerate_In {A : Type} (l : list A) (i : Z) (x : A) :
  In (i, x) (enumerate l) <-> 0 <= i /\ nth_error l (Z.to_nat i) = Some x.
Proof. unfold enumerate. rewrite enumerate_from_In. now rewrite Z.sub_0_r. Qed.

Lemma terrain_at_Some (gm : list (list Z)) (r c t : Z) :
  Spec.terrain_at gm r c = Some t <->
  exists row_data,
    (0 <= r /\ nth_error gm (Z.to_nat r) = Some row_data) /\
    (0 <= c /\ nth_error row_data (Z.to_nat c) = Some t).
Proof.
  unfold Spec.terrain_at. split.
  - destruct (Z.leb_spec 0 r); [ | discriminate].
    destruct (Z.leb_spec 0 c); [ | discriminate]. cbn [andb].
    destruct (nth_error gm (Z.to_nat r)) as [row_data | ]; [ | discriminate].
    intros Hcell. exists row_data. auto.
  - intros (row_data & [Hr Hn] & [Hc Hn']).
    destruct (Z.leb_spec 0 r); [ | lia]. destruct (Z.leb_spec 0 c); [ | lia].
    cbn [andb]. now rewrite Hn.
Qed.

Lemma hex_grid_cells_In (gm : list (list Z)) (r c : Z) (k : color) :
  In (r, c, k) (hex_grid_cells gm) <->
  exists t, Spec.terrain_at gm r c = Some t /\
            k = dict_get terrain_colors t OUT_OF_BOUNDS_WHITE.
Proof.
  unfold hex_grid_cells. rewrite in_flat_map. split.
  - intros ([r' row_data] & Hrow & Hcell). cbn [fst snd] in Hcell.
    apply in_map_iff in Hcell. destruct Hcell as ([c' t] & E & Hc).
    cbn [fst snd] in E. injection E as <- <- <-.
    apply enumerate_In in Hrow. apply enumerate_In in Hc.
    exists t. split; [ | reflexivity].
    apply terrain_at_Some. exists row_data. auto.
  - intros (t & Ht & ->). apply terrain_at_Some in Ht.
    destruct Ht as (row_data & Hr & Hc).
    exists (r, row_data). split; [now apply enumerate_In | ].
    cbn [fst snd]. apply in_map_iff. exists (c, t). split; [reflexivity | ].
    now apply enumerate_In.
Qed.

Lemma water_color (t : Z) :
  Spec.water t = true <->
  dict_get terrain_colors t OUT_OF_BOUNDS_WHITE = DEEP_WATER_BLUE \/
  dict_get terrain_colors t OUT_OF_BOUNDS_WHITE = SHALLOW_WATER_TEAL.
Proof.
  unfold Spec.water, dict_get, terrain_colors. cbn [find fst snd].
  unfold DEEP_WATER, SHALLOW_WATER, LAND, OUT_OF_BOUNDS.
  rewrite (Z.eqb_sym t 1), (Z.eqb_sym t 2).
  destruct (1 =? t); [cbn; split; auto | ].
  destruct (2 =? t); [cbn; split; auto | ].
  destruct (3 =? t); [cbn; split; [discriminate | intros [H | H]; discriminate] | ].
  destruct (0 =? t); cbn; (split; [discriminate | intros [H | H]; discriminate]).
Qed.

(** X17. [create_hex_grid_surface] draws exactly the cells that exist, rows
    of any lengths included: a hexagon is drawn for (row, col) with a given
    colour if and only if the map has a terrain code there and the colour
    is the one [terrain_colors] gives that code, white when the code is
    unknown. *)
Theorem grid_draws_every_cell (gm : list (list Z)) (r c : Z) (k : color) :
  In (r, c, k) (hex_grid_cells gm) <->
  exists t, Spec.terrain_at gm r c = Some t /\
            k = dict_get terrain_colors t OUT_OF_BOUNDS_WHITE.
Proof. exact (hex_grid_cells_In gm r c k). Qed.

(** X18. What is drawn agrees with where the submarine may go: a drawn
    cell that passes the bounds test of [move_forward] can be entered if
    and only if it is drawn in the deep-water or the shallow-water colour. *)
Theorem enterable_cells_are_drawn_as_water
    (gm : list (list Z)) (r c : Z) (k : color) :
  In (r, c, k) (hex_grid_cells gm) ->
  Spec.in_bounds gm r c = true ->
  (Spec.enterable gm r c = true <->
   k = DEEP_WATER_BLUE \/ k = SHALLOW_WATER_TEAL).
Proof.
  intros Hin Hb. apply hex_grid_cells_In in Hin. destruct Hin as (t & Ht & ->).
  unfold Spec.enterable. rewrite Hb, Ht. cbn [andb]. apply water_color.
Qed.

Lemma enterable_cells_are_drawn_as_water_witness :
  Spec.enterable game_map 7 8 = true <->
  SHALLOW_WATER_TEAL = DEEP_WATER_BLUE \/ SHALLOW_WATER_TEAL = SHALLOW_WATER_TEAL.
Proof.
  apply (enterable_cells_are_drawn_as_water game_map 7 8 SHALLOW_WATER_TEAL).
  - vm_compute. tauto.
  - reflexivity.
Defined.



